(** * Yahtzee scoring rules (src/Rules.js): shallow embedding and properties

    The module [Rules.js] defines a base class [Rule] with three helpers
    ([sum], [freq], [count]) and six subclasses, each with one method
    [evalRoll].  Thirteen instances are exported, one per scoring category.

    Dice are JavaScript numbers; every value the rules see is a small
    integer (a face in 1..6, a count, a sum of at most 30), on which the
    arithmetic of doubles is exact, so numbers are embedded as [Z].
    A [TypeError] thrown by the code is the result [None]. *)

From Stdlib Require Import ZArith List Bool Lia Permutation Sorted.
From Stdlib Require String DecimalString.
Import ListNotations.
Local Open Scope Z_scope.

(** ** JavaScript containers used by the rules *)

Module Js.

(** [Map]: entries are kept in insertion order; [set] on a key that is
    already present replaces the value in place. *)
Definition Map := list (Z * Z).

Fixpoint map_get (m : Map) (k : Z) : option Z :=
  match m with
  | [] => None
  | (k', v) :: m' => if k' =? k then Some v else map_get m' k
  end.

Fixpoint map_set (m : Map) (k v : Z) : Map :=
  match m with
  | [] => [(k, v)]
  | (k', v') :: m' =>
      if k' =? k then (k', v) :: m' else (k', v') :: map_set m' k v
  end.

Definition map_values (m : Map) : list Z := map snd m.

Definition map_keys (m : Map) : list Z := map fst m.

(** [x || 0] where [x] is a number or [undefined]: [undefined] and [0] are
    falsy, every other number is returned as it is. *)
Definition or_zero (x : option Z) : Z :=
  match x with
  | None => 0
  | Some c => if c =? 0 then 0 else c
  end.

(** [Set]: distinct values in insertion order. *)
Definition Set_ := list Z.

Definition set_has (s : Set_) (x : Z) : bool := existsb (Z.eqb x) s.

Definition set_add (s : Set_) (x : Z) : Set_ :=
  if set_has s x then s else s ++ [x].

(** [new Set(dice)] adds the elements from left to right. *)
Definition new_Set (dice : list Z) : Set_ := fold_left set_add dice [].

Definition set_size (s : Set_) : Z := Z.of_nat (length s).

(** [Array.from(set)] lists the elements in insertion order. *)
Definition array_from (s : Set_) : list Z := s.

(** [ToString] of an integer: decimal digits, with a minus sign below zero. *)
Definition to_string (z : Z) : String.string :=
  DecimalString.NilZero.string_of_int (Z.to_int z).

(** The comparison [Array.prototype.sort] uses when it is given no
    comparator: both elements are converted to strings, which are compared
    by code units. *)
Definition default_leb (a b : Z) : bool := String.leb (to_string a) (to_string b).

Section Sort.
Variable leb : Z -> Z -> bool.

Fixpoint insert (x : Z) (l : list Z) : list Z :=
  match l with
  | [] => [x]
  | y :: l' => if leb x y then x :: y :: l' else y :: insert x l'
  end.

(** A stable sort: an element stays in front of the later elements it
    does not exceed. *)
Definition sort_by (l : list Z) : list Z := fold_right insert [] l.
End Sort.

(** [arr.sort()] *)
Definition array_sort (l : list Z) : list Z := sort_by default_leb l.

End Js.

(** ** The base class [Rule] *)

(** [sum]: [dice.reduce((prev, curr) => prev + curr)].  Without an initial
    value [reduce] starts from the first element and throws on an empty
    array. *)
Definition sum (dice : list Z) : option Z :=
  match dice with
  | [] => None
  | d :: rest => Some (fold_left (fun prev curr => prev + curr) rest d)
  end.

(** Body of the loop of [freq]:
    [freqs.set(d, (freqs.get(d) || 0) + 1)]. *)
Definition freq_step (freqs : Js.Map) (d : Z) : Js.Map :=
  Js.map_set freqs d (Js.or_zero (Js.map_get freqs d) + 1).

(** The map [freq] builds before it returns its values. *)
Definition freq_map (dice : list Z) : Js.Map := fold_left freq_step dice [].

Definition freq (dice : list Z) : list Z := Js.map_values (freq_map dice).

(** [count]: [dice.filter(d => d === val).length] *)
Definition count (dice : list Z) (val : Z) : Z :=
  Z.of_nat (length (filter (fun d => d =? val) dice)).

(** ** The subclasses

    The constructor copies its parameter object onto the instance, so an
    instance carries exactly the fields it was built with.  For [SumDistro]
    the own field [count] shadows the inherited method [count]. *)
Inductive Rule : Type :=
| TotalOneNumber (val : Z)
| SumDistro (count : Z)
| FullHouse (score : Z)
| SmallStraight (score : Z)
| LargeStraight (score : Z)
| Yahtzee (score : Z).

(** [f[i] === v]: an index past the end reads [undefined], which equals no
    number. *)
Definition index_is (f : list Z) (i : nat) (v : Z) : bool :=
  match nth_error f i with
  | Some c => c =? v
  | None => false
  end.

(** State of the loop of [SmallStraight.evalRoll]. *)
Record ScanState : Type := mkScan { highestConsec : Z; consecutive : Z }.

(** One iteration of the loop, at index [i] of the sorted array [d].  The
    loop condition keeps [i + 1] inside the array. *)
Definition scan_step (d : list Z) (st : ScanState) (i : nat) : ScanState :=
  match nth_error d i, nth_error d (i + 1) with
  | Some x, Some y =>
      if x + 1 =? y
      then let c := consecutive st + 1 in
           mkScan (Z.max (highestConsec st) c) c
      else mkScan (highestConsec st) 1
  | _, _ => mkScan (highestConsec st) 1
  end.

(** [for (let i = 0; i < d.length - 1; i++)] from
    [highestConsec = 0], [consecutive = 1]. *)
Definition scan (d : list Z) : Z :=
  highestConsec (fold_left (scan_step d) (seq 0 (length d - 1)) (mkScan 0 1)).

Definition evalRoll (r : Rule) (dice : list Z) : option Z :=
  match r with
  | TotalOneNumber val => Some (val * count dice val)
  | SumDistro cnt =>
      if existsb (fun c => c >=? cnt) (freq dice) then sum dice else Some 0
  | FullHouse score =>
      let f := freq dice in
      if (index_is f 0 3 && index_is f 1 2) || (index_is f 0 2 && index_is f 1 3)
      then Some score else Some 0
  | SmallStraight score =>
      let d := Js.array_sort (Js.array_from (Js.new_Set dice)) in
      if scan d >=? 4 then Some score else Some 0
  | LargeStraight score =>
      let d := Js.new_Set dice in
      if (Js.set_size d =? 5) && (negb (Js.set_has d 1) || negb (Js.set_has d 6))
      then Some score else Some 0
  | Yahtzee score =>
      if index_is (freq dice) 0 5 then Some score else Some 0
  end.

(** ** The exported instances *)

Definition ones := TotalOneNumber 1.
Definition twos := TotalOneNumber 2.
Definition threes := TotalOneNumber 3.
Definition fours := TotalOneNumber 4.
Definition fives := TotalOneNumber 5.
Definition sixes := TotalOneNumber 6.
Definition threeOfKind := SumDistro 3.
Definition fourOfKind := SumDistro 4.
Definition fullHouse := FullHouse 25.
Definition smallStraight := SmallStraight 30.
Definition largeStraight := LargeStraight 40.
Definition yahtzee := Yahtzee 50.
Definition chance := SumDistro 0.

Definition exported : list Rule :=
  [ones; twos; threes; fours; fives; sixes; threeOfKind; fourOfKind;
   fullHouse; smallStraight; largeStraight; yahtzee; chance].

(** ** Rolls *)

(** A face of a die. *)
Definition in_range (d : Z) : Prop := 1 <= d <= 6.

(** A well-formed roll: five dice, each showing a face from 1 to 6. *)
Definition valid_roll (dice : list Z) : Prop :=
  length dice = 5%nat /\ Forall in_range dice.

(** ** Notions the properties are stated with *)

(** Arithmetic sum of a list of numbers. *)
Definition total (l : list Z) : Z := fold_right Z.add 0 l.

(** Ascending numeric order, the order the run scan is meant to see. *)
Definition sort_numeric (l : list Z) : list Z := Js.sort_by Z.leb l.

(** Length of the run of consecutive integers [v], [v + 1], ... present in
    [s], counting at most [n] of them. *)
Fixpoint run_from (s : list Z) (n : nat) (v : Z) : nat :=
  match n with
  | O => O
  | S n' => if Js.set_has s v then S (run_from s n' (v + 1)) else O
  end.

(** Longest run of consecutive integers among the values of [s]. *)
Definition longest_run (s : list Z) : nat :=
  fold_right Nat.max O (map (run_from s (length s)) s).

(** The faces 1 to 6. *)
Definition faces : list Z := [1; 2; 3; 4; 5; 6].

(** Four consecutive faces among those a predicate selects. *)
Definition four_in_a_row (p : Z -> bool) : bool :=
  (p 1 && p 2 && p 3 && p 4) || (p 2 && p 3 && p 4 && p 5)
  || (p 3 && p 4 && p 5 && p 6).




(** The rolls of [n] dice. *)
Fixpoint rolls_of (n : nat) : list (list Z) :=
  match n with
  | O => [[]]
  | S n' => flat_map (fun rest => map (fun d => d :: rest) faces) (rolls_of n')
  end.

(** Test that a result is the score [s]. *)
Definition scores (result : option Z) (s : Z) : bool :=
  match result with
  | Some s' => s' =? s
  | None => false
  end.

(** Case analysis on which of the six faces a predicate selects. *)
Ltac by_faces p :=
  unfold four_in_a_row, faces; simpl filter;
  destruct (p 1), (p 2), (p 3), (p 4), (p 5), (p 6); reflexivity.

Example longest_run_examples :
  longest_run [1; 2; 3; 5] = 3%nat /\ longest_run [2; 4; 6] = 1%nat /\
  longest_run [3; 4; 5; 6] = 4%nat /\ longest_run [] = 0%nat.
Proof. repeat split. Qed.

(** ** Lemmas on the containers *)

Lemma or_zero_get (x : option Z) :
  Js.or_zero x = match x with Some c => c | None => 0 end.
Proof.
  destruct x as [c|]; simpl; trivial.
  destruct (Z.eqb_spec c 0); congruence.
Qed.

Lemma map_get_set (m : Js.Map) (k v k' : Z) :
  Js.map_get (Js.map_set m k v) k' =
  if k =? k' then Some v else Js.map_get m k'.
Proof.
  induction m as [|[k0 v0] m IH]; simpl.
  - reflexivity.
  - destruct (Z.eqb_spec k0 k) as [->|Hne]; simpl.
    + destruct (Z.eqb_spec k k'); reflexivity.
    + rewrite IH. destruct (Z.eqb_spec k0 k'); trivial.
      destruct (Z.eqb_spec k k'); congruence.
Qed.

Lemma set_has_In (s : Js.Set_) (x : Z) : Js.set_has s x = true <-> In x s.
Proof.
  unfold Js.set_has. rewrite existsb_exists. split.
  - intros (y & Hy & E). apply Z.eqb_eq in E. now subst.
  - intros H. exists x. split; trivial. apply Z.eqb_refl.
Qed.

Lemma set_has_false (s : Js.Set_) (x : Z) : Js.set_has s x = false <-> ~ In x s.
Proof.
  rewrite <- set_has_In. destruct (Js.set_has s x); split; congruence.
Qed.

Lemma map_keys_set (m : Js.Map) (k v : Z) :
  Js.map_keys (Js.map_set m k v) = Js.set_add (Js.map_keys m) k.
Proof.
  unfold Js.set_add, Js.set_has.
  induction m as [|[k0 v0] m IH]; simpl.
  - reflexivity.
  - rewrite (Z.eqb_sym k k0). destruct (k0 =? k); simpl; trivial.
    rewrite IH. destruct (existsb (Z.eqb k) (Js.map_keys m)); reflexivity.
Qed.

Lemma set_add_In (s : Js.Set_) (x y : Z) :
  In y (Js.set_add s x) <-> In y s \/ y = x.
Proof.
  unfold Js.set_add. destruct (Js.set_has s x) eqn:E.
  - apply set_has_In in E. split; [tauto|]. intros [H| ->]; trivial.
  - rewrite in_app_iff. simpl. intuition.
Qed.

Lemma set_add_NoDup (s : Js.Set_) (x : Z) : NoDup s -> NoDup (Js.set_add s x).
Proof.
  intros H. unfold Js.set_add. destruct (Js.set_has s x) eqn:E; trivial.
  apply set_has_false in E.
  apply NoDup_app.
  - assumption.
  - constructor; [simpl; tauto | constructor].
  - intros a Ha [<-|[]]. contradiction.
Qed.

Lemma fold_set_add_In (l : list Z) (s : Js.Set_) (y : Z) :
  In y (fold_left Js.set_add l s) <-> In y s \/ In y l.
Proof.
  revert s. induction l as [|x l IH]; intros s; simpl.
  - tauto.
  - rewrite IH, set_add_In. intuition.
Qed.

Lemma fold_set_add_NoDup (l : list Z) (s : Js.Set_) :
  NoDup s -> NoDup (fold_left Js.set_add l s).
Proof.
  revert s. induction l as [|x l IH]; intros s H; simpl; auto using set_add_NoDup.
Qed.

Lemma fold_set_add_prefix (l : list Z) (s : Js.Set_) :
  exists t, fold_left Js.set_add l s = s ++ t.
Proof.
  revert s. induction l as [|x l IH]; intros s; simpl.
  - exists []. now rewrite app_nil_r.
  - destruct (IH (Js.set_add s x)) as [t Ht]. rewrite Ht.
    unfold Js.set_add. destruct (Js.set_has s x).
    + now exists t.
    + exists ([x] ++ t). now rewrite app_assoc.
Qed.

Lemma new_Set_In (dice : list Z) (y : Z) : In y (Js.new_Set dice) <-> In y dice.
Proof. unfold Js.new_Set. rewrite fold_set_add_In. simpl. tauto. Qed.

Lemma new_Set_NoDup (dice : list Z) : NoDup (Js.new_Set dice).
Proof. apply fold_set_add_NoDup. constructor. Qed.

Lemma new_Set_head (d : Z) (rest : list Z) :
  exists t, Js.new_Set (d :: rest) = d :: t.
Proof.
  unfold Js.new_Set. simpl. apply (fold_set_add_prefix rest [d]).
Qed.

(** ** Lemmas on [count] *)

Lemma count_nil (v : Z) : count [] v = 0.
Proof. reflexivity. Qed.

Lemma count_cons (d : Z) (dice : list Z) (v : Z) :
  count (d :: dice) v = (if d =? v then 1 else 0) + count dice v.
Proof.
  unfold count. simpl. destruct (d =? v); simpl length; lia.
Qed.

Lemma count_nonneg (dice : list Z) (v : Z) : 0 <= count dice v.
Proof. unfold count. lia. Qed.

Lemma count_le_length (dice : list Z) (v : Z) :
  count dice v <= Z.of_nat (length dice).
Proof.
  induction dice as [|d dice IH]; [reflexivity|].
  rewrite count_cons. simpl length. destruct (d =? v); lia.
Qed.

Lemma count_pos_In (dice : list Z) (v : Z) : 0 < count dice v <-> In v dice.
Proof.
  induction dice as [|d dice IH].
  - rewrite count_nil. simpl. lia.
  - rewrite count_cons. simpl. pose proof (count_nonneg dice v).
    destruct (Z.eqb_spec d v); intuition lia.
Qed.

Lemma count_all_iff (dice : list Z) (v : Z) :
  count dice v = Z.of_nat (length dice) <-> Forall (eq v) dice.
Proof.
  induction dice as [|d dice IH].
  - split; [constructor | reflexivity].
  - rewrite count_cons. simpl length. pose proof (count_le_length dice v).
    split.
    + intros H0. destruct (Z.eqb_spec d v); [|lia].
      constructor; [congruence|]. apply IH. lia.
    + intros H0. inversion H0 as [|? ? Hd Hrest]; subst. rewrite Z.eqb_refl.
      apply IH in Hrest. lia.
Qed.

Lemma count_Permutation (dice dice' : list Z) (v : Z) :
  Permutation dice dice' -> count dice v = count dice' v.
Proof.
  induction 1 as [|d l l' _ IH|d e l|l l' l'' _ IH1 _ IH2];
    rewrite ?count_cons; lia.
Qed.

(** The counts of the values of a duplicate-free list that covers the dice
    add up to the number of dice. *)
Lemma total_counts (dice : list Z) :
  forall s : list Z, NoDup s -> incl dice s ->
  total (map (count dice) s) = Z.of_nat (length dice).
Proof.
  assert (Hzero : forall s, total (map (count []) s) = 0).
  { induction s as [|a s IH]; simpl; trivial. }
  assert (Hone : forall d s, NoDup s ->
            total (map (fun v => if d =? v then 1 else 0) s) =
            if Js.set_has s d then 1 else 0).
  { intros d s Hs. induction Hs as [|a s Ha Hs IH]; simpl; trivial.
    rewrite IH. destruct (Z.eqb_spec d a) as [->|]; simpl; trivial.
    apply set_has_false in Ha. now rewrite Ha. }
  induction dice as [|d dice IH]; intros s Hs Hincl.
  - apply Hzero.
  - assert (Hd : Js.set_has s d = true) by (apply set_has_In, Hincl; now left).
    specialize (IH s Hs (fun x Hx => Hincl x (or_intror Hx))).
    specialize (Hone d s Hs). rewrite Hd in Hone.
    simpl length. rewrite Nat2Z.inj_succ, <- IH, <- Z.add_1_l, <- Hone.
    clear. induction s as [|a s IHs]; simpl; trivial.
    rewrite count_cons, IHs. lia.
Qed.

(** ** Lemmas on [freq] *)

Lemma freq_fold_keys (dice : list Z) (m : Js.Map) :
  Js.map_keys (fold_left freq_step dice m) =
  fold_left Js.set_add dice (Js.map_keys m).
Proof.
  revert m. induction dice as [|d dice IH]; intros m; simpl; trivial.
  rewrite IH. unfold freq_step. now rewrite map_keys_set.
Qed.

Lemma freq_fold_get (dice : list Z) (m : Js.Map) (k : Z) :
  Js.or_zero (Js.map_get (fold_left freq_step dice m) k) =
  Js.or_zero (Js.map_get m k) + count dice k.
Proof.
  revert m. induction dice as [|d dice IH]; intros m; simpl.
  - rewrite count_nil. lia.
  - rewrite IH, count_cons. unfold freq_step. rewrite map_get_set.
    destruct (Z.eqb_spec d k) as [->|]; [|lia].
    rewrite !or_zero_get. lia.
Qed.

Lemma map_values_get (m : Js.Map) :
  NoDup (Js.map_keys m) ->
  Js.map_values m = map (fun k => Js.or_zero (Js.map_get m k)) (Js.map_keys m).
Proof.
  induction m as [|[k v] m IH]; simpl; intros H; trivial.
  inversion H as [|? ? Hk Hm]; subst.
  rewrite Z.eqb_refl, or_zero_get. f_equal.
  rewrite (IH Hm). apply map_ext_in. intros a Ha.
  destruct (Z.eqb_spec k a); [subst; contradiction | reflexivity].
Qed.

(** [freq] lists, for each distinct value in first-seen order, how many dice
    show it. *)
Lemma freq_counts (dice : list Z) :
  freq dice = map (count dice) (Js.new_Set dice).
Proof.
  unfold freq, freq_map.
  assert (Hk : Js.map_keys (fold_left freq_step dice []) = Js.new_Set dice)
    by apply freq_fold_keys.
  rewrite map_values_get by (rewrite Hk; apply new_Set_NoDup).
  rewrite Hk. apply map_ext. intros k. now rewrite freq_fold_get.
Qed.

Lemma freq_total (dice : list Z) : total (freq dice) = Z.of_nat (length dice).
Proof.
  rewrite freq_counts. apply total_counts.
  - apply new_Set_NoDup.
  - intros x Hx. now apply new_Set_In.
Qed.

Lemma freq_pos (dice : list Z) : Forall (fun c => 1 <= c) (freq dice).
Proof.
  rewrite freq_counts. apply Forall_forall. intros c Hc.
  apply in_map_iff in Hc as (v & <- & Hv).
  apply (proj1 (new_Set_In dice v)) in Hv.
  apply (proj2 (count_pos_In dice v)) in Hv. lia.
Qed.

Lemma freq_head (d : Z) (rest : list Z) :
  exists t, freq (d :: rest) = count (d :: rest) d :: t.
Proof.
  rewrite freq_counts. destruct (new_Set_head d rest) as [t ->].
  now exists (map (count (d :: rest)) t).
Qed.

Lemma new_Set_Permutation (dice dice' : list Z) :
  Permutation dice dice' -> Permutation (Js.new_Set dice) (Js.new_Set dice').
Proof.
  intros H. apply NoDup_Permutation; try apply new_Set_NoDup.
  intros x. rewrite !new_Set_In. split; apply Permutation_in; auto using Permutation_sym.
Qed.

(** The multiset of counts depends on the multiset of dice only. *)
Lemma freq_Permutation (dice dice' : list Z) :
  Permutation dice dice' -> Permutation (freq dice) (freq dice').
Proof.
  intros H. rewrite !freq_counts.
  rewrite (map_ext (count dice) (count dice')) by (intros; now apply count_Permutation).
  apply Permutation_map, new_Set_Permutation, H.
Qed.

(** ** Lemmas on sums *)

Lemma fold_left_add_total (rest : list Z) (d : Z) :
  fold_left (fun prev curr => prev + curr) rest d = d + total rest.
Proof.
  revert d. induction rest as [|x rest IH]; intros d; simpl.
  - lia.
  - rewrite IH. lia.
Qed.

Lemma sum_cons (d : Z) (rest : list Z) : sum (d :: rest) = Some (total (d :: rest)).
Proof. simpl. now rewrite fold_left_add_total. Qed.

Lemma sum_nonempty (dice : list Z) : dice <> [] -> sum dice = Some (total dice).
Proof. destruct dice as [|d rest]; [congruence | intros _; apply sum_cons]. Qed.

Lemma total_Permutation (l l' : list Z) : Permutation l l' -> total l = total l'.
Proof. induction 1; simpl; lia. Qed.

Lemma total_lower (lo : Z) (l : list Z) :
  Forall (fun c => lo <= c) l -> lo * Z.of_nat (length l) <= total l.
Proof.
  induction 1 as [|c l Hc _ IH]; simpl total; simpl length; lia.
Qed.

Lemma total_zero_nil (l : list Z) :
  Forall (fun c => 1 <= c) l -> total l <= 0 -> l = [].
Proof.
  intros H Ht. apply total_lower in H. destruct l; trivial. simpl length in H. lia.
Qed.

Lemma valid_roll_nonempty (dice : list Z) : valid_roll dice -> dice <> [].
Proof. intros [H _] ->. discriminate. Qed.

Lemma count_count_occ (dice : list Z) (v : Z) :
  count dice v = Z.of_nat (count_occ Z.eq_dec dice v).
Proof.
  induction dice as [|d dice IH]; [reflexivity|].
  rewrite count_cons, IH. simpl.
  destruct (Z.eq_dec d v) as [->|Hne].
  - rewrite Z.eqb_refl. lia.
  - apply Z.eqb_neq in Hne. rewrite Hne. lia.
Qed.

(** ** The helper [sum] *)

(** C9: on a non-empty roll [sum] returns the arithmetic sum of the dice; on
    the empty roll it throws; a roll of five dice is never empty, so there
    [sum] returns the arithmetic sum.  The function is pure: it reads the
    array it is given and changes nothing. *)
Theorem sum_arithmetic (dice : list Z) :
  (dice <> [] -> sum dice = Some (total dice)) /\
  (dice = [] -> sum dice = None) /\
  (length dice = 5%nat -> sum dice = Some (total dice)).
Proof.
  split; [apply sum_nonempty | split].
  - now intros ->.
  - intros H. apply sum_nonempty. intros ->. discriminate.
Qed.

Lemma sum_arithmetic_witness :
  [2; 3; 3; 4; 6] <> [] /\ length [2; 3; 3; 4; 6] = 5%nat /\
  sum [2; 3; 3; 4; 6] = Some 18.
Proof.
  split; [discriminate | split; [reflexivity|]].
  exact (proj1 (sum_arithmetic [2; 3; 3; 4; 6]) ltac:(discriminate)).
Defined.

(** ** [TotalOneNumber] *)

Lemma count_bound (dice : list Z) (v : Z) :
  length dice = 5%nat -> 0 <= count dice v <= 5.
Proof.
  intros H. pose proof (count_nonneg dice v). pose proof (count_le_length dice v). lia.
Qed.

(** C6: for a target face [V] from 1 to 6 and a valid roll, the rule returns
    (it never throws) [V] times the number of dice equal to [V], which is one
    of 0, V, 2V, 3V, 4V, 5V. *)
Theorem totalOneNumber_score (V : Z) (dice : list Z) :
  1 <= V <= 6 -> valid_roll dice ->
  evalRoll (TotalOneNumber V) dice = Some (V * Z.of_nat (count_occ Z.eq_dec dice V)) /\
  exists s, evalRoll (TotalOneNumber V) dice = Some s /\
            In s [0; V; 2 * V; 3 * V; 4 * V; 5 * V].
Proof.
  intros HV [Hlen Hrange]. simpl evalRoll. rewrite <- count_count_occ. split; trivial.
  eexists. split; [reflexivity|].
  pose proof (count_bound dice V Hlen) as Hc.
  assert (Hk : count dice V = 0 \/ count dice V = 1 \/ count dice V = 2 \/
               count dice V = 3 \/ count dice V = 4 \/ count dice V = 5) by lia.
  cbn [In]. destruct Hk as [E|[E|[E|[E|[E|E]]]]]; rewrite E; lia.
Qed.

Lemma totalOneNumber_score_witness :
  evalRoll threes [3; 3; 3; 2; 2] = Some 9.
Proof.
  refine (proj1 (totalOneNumber_score 3 [3; 3; 3; 2; 2] _ _)).
  - lia.
  - split; [reflexivity | repeat constructor; lia].
Defined.

(** ** [SumDistro] *)

Lemma sumDistro_test (M : Z) (dice : list Z) :
  existsb (fun c => c >=? M) (freq dice) = true <->
  exists v, In v dice /\ M <= count dice v.
Proof.
  rewrite freq_counts, existsb_exists. split.
  - intros (c & Hc & Hge). apply in_map_iff in Hc as (v & <- & Hv).
    exists v. split; [now apply new_Set_In | lia].
  - intros (v & Hv & Hge). exists (count dice v). split; [|lia].
    apply in_map. now apply new_Set_In.
Qed.

(** On a roll that is not empty, a value that need not be on a die does as
    well: a count of zero never beats the count of a die that is there. *)
Lemma occurs_at_least (M : Z) (dice : list Z) :
  dice <> [] ->
  (exists v, In v dice /\ M <= count dice v) <->
  (exists v, M <= Z.of_nat (count_occ Z.eq_dec dice v)).
Proof.
  intros Hne. split.
  - intros (v & _ & H). exists v. now rewrite <- count_count_occ.
  - intros (v & H). rewrite <- count_count_occ in H.
    destruct (in_dec Z.eq_dec v dice) as [Hin|Hout].
    + now exists v.
    + destruct dice as [|d rest]; [congruence|]. exists d. split; [now left|].
      assert (Hd : 0 < count (d :: rest) d) by (apply count_pos_In; now left).
      assert (Hv : ~ 0 < count (d :: rest) v) by now rewrite count_pos_In.
      lia.
Qed.

Lemma sumDistro_eval (M : Z) (dice : list Z) :
  dice <> [] ->
  ((exists v, M <= Z.of_nat (count_occ Z.eq_dec dice v)) ->
   evalRoll (SumDistro M) dice = Some (total dice)) /\
  (~ (exists v, M <= Z.of_nat (count_occ Z.eq_dec dice v)) ->
   evalRoll (SumDistro M) dice = Some 0).
Proof.
  intros Hne. simpl evalRoll.
  destruct (existsb (fun c => c >=? M) (freq dice)) eqn:E.
  - split; [intros _; now apply sum_nonempty|].
    intros H. exfalso. apply H, occurs_at_least, sumDistro_test; trivial.
  - split; [|reflexivity].
    intros H. apply occurs_at_least, sumDistro_test in H; trivial. congruence.
Qed.

(** C5: on a valid roll the rule with minimum multiplicity [M] (3 for
    [threeOfKind], 4 for [fourOfKind], 0 for [chance]) returns the sum of the
    dice when some face value occurs at least [M] times and 0 otherwise;
    [chance] always returns the sum. *)
Theorem sumDistro_score :
  (forall M dice, valid_roll dice ->
     ((exists v, M <= Z.of_nat (count_occ Z.eq_dec dice v)) ->
      evalRoll (SumDistro M) dice = Some (total dice)) /\
     (~ (exists v, M <= Z.of_nat (count_occ Z.eq_dec dice v)) ->
      evalRoll (SumDistro M) dice = Some 0)) /\
  (forall dice, valid_roll dice -> evalRoll chance dice = Some (total dice)) /\
  evalRoll threeOfKind [3; 3; 3; 2; 2] = Some 13 /\
  evalRoll threeOfKind [3; 3; 2; 2; 1] = Some 0 /\
  evalRoll chance [2; 3; 3; 4; 6] = Some 18.
Proof.
  split; [|split; [|repeat split]].
  - intros M dice Hv. apply sumDistro_eval, valid_roll_nonempty, Hv.
  - intros dice Hv. apply (sumDistro_eval 0 dice (valid_roll_nonempty dice Hv)).
    exists 0. lia.
Qed.

Lemma sumDistro_score_witness :
  valid_roll [4; 4; 1; 4; 4] /\
  (exists v, 4 <= Z.of_nat (count_occ Z.eq_dec [4; 4; 1; 4; 4] v)) /\
  evalRoll fourOfKind [4; 4; 1; 4; 4] = Some 17.
Proof.
  assert (Hv : valid_roll [4; 4; 1; 4; 4])
    by (split; [reflexivity | repeat constructor; lia]).
  assert (Hex : exists v, 4 <= Z.of_nat (count_occ Z.eq_dec [4; 4; 1; 4; 4] v))
    by (exists 4; simpl; lia).
  split; [exact Hv | split; [exact Hex|]].
  exact (proj1 (proj1 sumDistro_score 4 [4; 4; 1; 4; 4] Hv) Hex).
Defined.

(** ** [Yahtzee] *)

Lemma yahtzee_test (dice : list Z) :
  length dice = 5%nat ->
  index_is (freq dice) 0 5 = true <-> exists v, Forall (eq v) dice.
Proof.
  intros Hlen. destruct dice as [|d rest]; [discriminate|].
  destruct (freq_head d rest) as [t Ht]. rewrite Ht.
  unfold index_is. simpl nth_error. rewrite Z.eqb_eq.
  replace 5 with (Z.of_nat (length (d :: rest))) by (rewrite Hlen; reflexivity).
  rewrite count_all_iff. split.
  - intros H. now exists d.
  - intros [v H]. inversion H; subst. assumption.
Qed.

(** C4: on a valid roll [yahtzee] returns 50 exactly when all five dice show
    the same value, and 0 otherwise; the test the code makes, that the first
    entry of the frequency profile is 5, holds exactly for those rolls. *)
Theorem yahtzee_score :
  (forall dice, valid_roll dice ->
     (evalRoll yahtzee dice = Some 50 <-> exists v, Forall (eq v) dice) /\
     (~ (exists v, Forall (eq v) dice) -> evalRoll yahtzee dice = Some 0) /\
     (index_is (freq dice) 0 5 = true <-> exists v, Forall (eq v) dice)) /\
  evalRoll yahtzee [4; 4; 4; 4; 4] = Some 50 /\
  evalRoll yahtzee [4; 4; 4; 4; 3] = Some 0.
Proof.
  split; [|split; reflexivity].
  intros dice [Hlen _]. pose proof (yahtzee_test dice Hlen) as Ht.
  simpl evalRoll. destruct (index_is (freq dice) 0 5).
  - split; [|split]; [tauto | | tauto].
    intros H. exfalso. apply H, Ht. reflexivity.
  - split; [|split]; [|reflexivity | tauto].
    split; [discriminate|]. intros H. apply Ht in H. discriminate.
Qed.

Lemma yahtzee_score_witness :
  valid_roll [2; 2; 2; 2; 2] /\ (exists v, Forall (eq v) [2; 2; 2; 2; 2]) /\
  evalRoll yahtzee [2; 2; 2; 2; 2] = Some 50.
Proof.
  assert (Hv : valid_roll [2; 2; 2; 2; 2])
    by (split; [reflexivity | repeat constructor; lia]).
  assert (Hall : exists v, Forall (eq v) [2; 2; 2; 2; 2])
    by (exists 2; repeat constructor).
  split; [exact Hv | split; [exact Hall|]].
  exact (proj2 (proj1 (proj1 yahtzee_score [2; 2; 2; 2; 2] Hv)) Hall).
Defined.

(** ** [FullHouse] *)

Lemma In_Permutation_cons (a : Z) (l : list Z) :
  In a l -> exists l', Permutation l (a :: l').
Proof.
  intros H. apply in_split in H as (l1 & l2 & ->).
  exists (l1 ++ l2). apply Permutation_sym, Permutation_middle.
Qed.

(** With five dice, a profile that starts with two counts adding up to five
    has no further entry. *)
Lemma freq_two_entries (dice : list Z) (a b : Z) (rest : list Z) :
  length dice = 5%nat -> freq dice = a :: b :: rest -> a + b = 5 -> rest = [].
Proof.
  intros Hlen Hf Hab.
  pose proof (freq_total dice) as Ht. pose proof (freq_pos dice) as Hp.
  rewrite Hf in Ht, Hp. rewrite Hlen in Ht. simpl in Ht.
  inversion Hp as [|? ? _ Hp']; subst. inversion Hp' as [|? ? _ Hrest]; subst.
  apply total_zero_nil; [assumption | lia].
Qed.

Lemma fullHouse_test (dice : list Z) :
  length dice = 5%nat ->
  (index_is (freq dice) 0 3 && index_is (freq dice) 1 2)
  || (index_is (freq dice) 0 2 && index_is (freq dice) 1 3) = true <->
  Permutation (freq dice) [3; 2].
Proof.
  intros Hlen. split.
  - destruct (freq dice) as [|a [|b rest]] eqn:Hf; unfold index_is; simpl;
      rewrite ?andb_false_r; try discriminate.
    rewrite orb_true_iff, !andb_true_iff, !Z.eqb_eq.
    intros [[-> ->]|[-> ->]];
      rewrite (freq_two_entries dice _ _ rest Hlen Hf eq_refl).
    + apply Permutation_refl.
    + apply perm_swap.
  - intros H. apply Permutation_sym, Permutation_length_2_inv in H.
    destruct H as [-> | ->]; reflexivity.
Qed.

Lemma fullHouse_faces (dice : list Z) :
  length dice = 5%nat ->
  Permutation (freq dice) [3; 2] <->
  exists a b, a <> b /\ count_occ Z.eq_dec dice a = 3%nat
              /\ count_occ Z.eq_dec dice b = 2%nat.
Proof.
  intros Hlen. split.
  - intros H. apply Permutation_sym, Permutation_length_2_inv in H.
    rewrite freq_counts in H. pose proof (new_Set_NoDup dice) as Hnd.
    destruct (Js.new_Set dice) as [|a [|b [|c s]]]; simpl in H;
      try (destruct H; discriminate).
    inversion Hnd as [|? ? Hab _]; subst.
    assert (a <> b) by (intros ->; apply Hab; now left).
    rewrite !count_count_occ in H.
    destruct H as [H|H]; injection H as Ha Hb.
    + exists a, b. repeat split; trivial; lia.
    + exists b, a. repeat split; auto; lia.
  - intros (a & b & Hab & Ha & Hb).
    assert (Ca : count dice a = 3) by (rewrite count_count_occ, Ha; reflexivity).
    assert (Cb : count dice b = 2) by (rewrite count_count_occ, Hb; reflexivity).
    assert (Ia : In a (Js.new_Set dice))
      by (apply new_Set_In, count_pos_In; lia).
    assert (Ib : In b (Js.new_Set dice))
      by (apply new_Set_In, count_pos_In; lia).
    destruct (In_Permutation_cons a _ Ia) as [s1 P1].
    assert (Ib1 : In b s1).
    { apply (Permutation_in _ P1) in Ib. destruct Ib; [congruence | assumption]. }
    destruct (In_Permutation_cons b _ Ib1) as [s2 P2].
    assert (P : Permutation (Js.new_Set dice) (a :: b :: s2))
      by (rewrite P1; now constructor).
    assert (Pf : Permutation (freq dice) (3 :: 2 :: map (count dice) s2)).
    { rewrite freq_counts, <- Ca, <- Cb. apply (Permutation_map (count dice) P). }
    assert (Hs2 : map (count dice) s2 = []).
    { apply total_zero_nil.
      - apply Forall_forall. intros c Hc. apply in_map_iff in Hc as (v & <- & Hv).
        assert (In v dice).
        { apply new_Set_In. apply (Permutation_in _ (Permutation_sym P)).
          now right; right. }
        apply (proj2 (count_pos_In dice v)) in H. lia.
      - pose proof (freq_total dice) as Ht.
        rewrite (total_Permutation _ _ Pf), Hlen in Ht.
        change (3 + (2 + total (map (count dice) s2)) = 5) in Ht. lia. }
    now rewrite Hs2 in Pf.
Qed.

(** C1: on a valid roll [fullHouse] returns 25 exactly when the multiset of
    the counts of the frequency profile is {3, 2}, that is when one face
    shows three times and another twice, and 0 otherwise; five of a kind
    scores 0. *)
Theorem fullHouse_score :
  (forall dice, valid_roll dice ->
     (evalRoll fullHouse dice = Some 25 <-> Permutation (freq dice) [3; 2]) /\
     (Permutation (freq dice) [3; 2] <->
      exists a b, a <> b /\ count_occ Z.eq_dec dice a = 3%nat
                  /\ count_occ Z.eq_dec dice b = 2%nat) /\
     (~ Permutation (freq dice) [3; 2] -> evalRoll fullHouse dice = Some 0)) /\
  evalRoll fullHouse [5; 5; 5; 5; 5] = Some 0.
Proof.
  split; [|reflexivity].
  intros dice [Hlen _]. pose proof (fullHouse_test dice Hlen) as Ht.
  split; [|split; [now apply fullHouse_faces|]]; simpl evalRoll;
    destruct ((index_is (freq dice) 0 3 && index_is (freq dice) 1 2)
              || (index_is (freq dice) 0 2 && index_is (freq dice) 1 3)).
  - tauto.
  - split; [discriminate|]. intros H. apply Ht in H. discriminate.
  - intros H. exfalso. apply H, Ht. reflexivity.
  - reflexivity.
Qed.

Lemma fullHouse_score_witness :
  valid_roll [6; 1; 6; 1; 6] /\ Permutation (freq [6; 1; 6; 1; 6]) [3; 2] /\
  evalRoll fullHouse [6; 1; 6; 1; 6] = Some 25.
Proof.
  assert (Hv : valid_roll [6; 1; 6; 1; 6])
    by (split; [reflexivity | repeat constructor; lia]).
  assert (Hp : Permutation (freq [6; 1; 6; 1; 6]) [3; 2])
    by apply Permutation_refl.
  split; [exact Hv | split; [exact Hp|]].
  exact (proj2 (proj1 (proj1 fullHouse_score [6; 1; 6; 1; 6] Hv)) Hp).
Defined.

(** ** [LargeStraight] *)

(** The size of the set is the number of distinct values of the roll. *)
Lemma set_size_distinct (dice : list Z) :
  Js.set_size (Js.new_Set dice) = Z.of_nat (length (nodup Z.eq_dec dice)).
Proof.
  unfold Js.set_size. f_equal. apply Permutation_length, NoDup_Permutation.
  - apply new_Set_NoDup.
  - apply NoDup_nodup.
  - intros x. now rewrite new_Set_In, nodup_In.
Qed.

(** Five dice with five distinct values: the set is the roll, reordered. *)
Lemma new_Set_full (dice : list Z) :
  length (Js.new_Set dice) = length dice -> Permutation (Js.new_Set dice) dice.
Proof.
  intros H. apply NoDup_Permutation_bis.
  - apply new_Set_NoDup.
  - rewrite H. apply le_n.
  - intros x. apply new_Set_In.
Qed.

Lemma five_faces (dice run : list Z) :
  NoDup dice -> length dice = 5%nat -> length run = 5%nat -> incl dice run ->
  Permutation dice run.
Proof.
  intros Hnd Hlen Hrun Hincl. apply NoDup_Permutation_bis; trivial.
  rewrite Hlen, Hrun. apply le_n.
Qed.

Lemma largeStraight_test (dice : list Z) :
  valid_roll dice ->
  (Js.set_size (Js.new_Set dice) =? 5)
  && (negb (Js.set_has (Js.new_Set dice) 1) || negb (Js.set_has (Js.new_Set dice) 6))
  = true <->
  Permutation dice [1; 2; 3; 4; 5] \/ Permutation dice [2; 3; 4; 5; 6].
Proof.
  intros [Hlen Hrange]. rewrite Forall_forall in Hrange.
  rewrite andb_true_iff, orb_true_iff, !negb_true_iff, !set_has_false, Z.eqb_eq.
  rewrite !new_Set_In. unfold Js.set_size. split.
  - intros [Hsize Hend].
    assert (Hnd : NoDup dice).
    { apply (Permutation_NoDup (new_Set_full dice ltac:(lia))), new_Set_NoDup. }
    destruct Hend as [H1|H6]; [right|left]; apply five_faces; trivial;
      intros x Hx; specialize (Hrange x Hx); unfold in_range in Hrange; simpl;
      assert (x <> 1 \/ x <> 6) by lia;
      assert (x = 1 \/ x = 2 \/ x = 3 \/ x = 4 \/ x = 5 \/ x = 6) by lia;
      intuition (subst; try contradiction; auto).
  - intros [P|P]; pose proof (Permutation_length (new_Set_Permutation _ _ P)) as Hl;
      (split; [rewrite Hl; reflexivity|]); [right|left];
      intros H; apply (Permutation_in _ P) in H; simpl in H;
      intuition discriminate.
Qed.

(** C3: on a valid roll [largeStraight] returns 40 exactly when the roll has
    five distinct values and lacks the 1 or lacks the 6 -- that is when its
    values are 1..5 or 2..6 in some order -- and 0 otherwise. *)
Theorem largeStraight_score :
  (forall dice, valid_roll dice ->
     (evalRoll largeStraight dice = Some 40 <->
      length (nodup Z.eq_dec dice) = 5%nat /\ (~ In 1 dice \/ ~ In 6 dice)) /\
     (length (nodup Z.eq_dec dice) = 5%nat /\ (~ In 1 dice \/ ~ In 6 dice) <->
      Permutation dice [1; 2; 3; 4; 5] \/ Permutation dice [2; 3; 4; 5; 6]) /\
     (~ (length (nodup Z.eq_dec dice) = 5%nat /\ (~ In 1 dice \/ ~ In 6 dice)) ->
      evalRoll largeStraight dice = Some 0)) /\
  evalRoll largeStraight [1; 2; 3; 4; 5] = Some 40 /\
  evalRoll largeStraight [2; 3; 4; 5; 6] = Some 40 /\
  evalRoll largeStraight [1; 2; 3; 4; 6] = Some 0.
Proof.
  split; [|repeat split].
  intros dice Hv. pose proof (largeStraight_test dice Hv) as Ht.
  assert (Hc : (Js.set_size (Js.new_Set dice) =? 5)
               && (negb (Js.set_has (Js.new_Set dice) 1)
                   || negb (Js.set_has (Js.new_Set dice) 6)) = true <->
               length (nodup Z.eq_dec dice) = 5%nat /\ (~ In 1 dice \/ ~ In 6 dice)).
  { rewrite andb_true_iff, orb_true_iff, !negb_true_iff, !set_has_false, Z.eqb_eq.
    rewrite !new_Set_In, set_size_distinct. intuition lia. }
  simpl evalRoll.
  destruct ((Js.set_size (Js.new_Set dice) =? 5)
            && (negb (Js.set_has (Js.new_Set dice) 1)
                || negb (Js.set_has (Js.new_Set dice) 6))).
  - split; [tauto | split; [tauto|]]. intros H. exfalso. apply H, Hc. reflexivity.
  - split; [|split; [tauto | reflexivity]].
    split; [discriminate|]. intros H. apply Hc in H. discriminate.
Qed.

Lemma largeStraight_score_witness :
  valid_roll [6; 4; 2; 3; 5] /\
  (length (nodup Z.eq_dec [6; 4; 2; 3; 5]) = 5%nat /\
   (~ In 1 [6; 4; 2; 3; 5] \/ ~ In 6 [6; 4; 2; 3; 5])) /\
  evalRoll largeStraight [6; 4; 2; 3; 5] = Some 40.
Proof.
  assert (Hv : valid_roll [6; 4; 2; 3; 5])
    by (split; [reflexivity | repeat constructor; lia]).
  assert (Hd : length (nodup Z.eq_dec [6; 4; 2; 3; 5]) = 5%nat /\
               (~ In 1 [6; 4; 2; 3; 5] \/ ~ In 6 [6; 4; 2; 3; 5])).
  { split; [reflexivity|]. left. simpl. intuition discriminate. }
  split; [exact Hv | split; [exact Hd|]].
  exact (proj2 (proj1 (proj1 largeStraight_score [6; 4; 2; 3; 5] Hv)) Hd).
Defined.

(** ** The run scan of [SmallStraight] *)



(** ** Sorting *)

Section SortLemmas.
Variable leb : Z -> Z -> bool.

Lemma insert_In (x y : Z) (l : list Z) :
  In y (Js.insert leb x l) <-> y = x \/ In y l.
Proof.
  induction l as [|z l IH]; simpl.
  - intuition.
  - destruct (leb x z); simpl; rewrite ?IH; intuition.
Qed.

Lemma sort_by_In (y : Z) (l : list Z) : In y (Js.sort_by leb l) <-> In y l.
Proof.
  induction l as [|x l IH]; simpl; [tauto|].
  rewrite insert_In, IH. intuition.
Qed.

Lemma insert_Permutation (x : Z) (l : list Z) :
  Permutation (Js.insert leb x l) (x :: l).
Proof.
  induction l as [|z l IH]; simpl; [apply Permutation_refl|].
  destruct (leb x z); [apply Permutation_refl|].
  rewrite IH. apply perm_swap.
Qed.

Lemma sort_by_Permutation (l : list Z) : Permutation (Js.sort_by leb l) l.
Proof.
  induction l as [|x l IH]; simpl; [constructor|].
  rewrite insert_Permutation. now constructor.
Qed.

(** Two comparisons that agree on the elements of the array sort it alike. *)
Lemma insert_ext (leb' : Z -> Z -> bool) (x : Z) (l : list Z) :
  (forall y, In y l -> leb x y = leb' x y) ->
  Js.insert leb x l = Js.insert leb' x l.
Proof.
  induction l as [|z l IH]; intros H; simpl; trivial.
  rewrite (H z) by now left. rewrite IH by (intros; apply H; now right).
  reflexivity.
Qed.

Lemma sort_by_ext (leb' : Z -> Z -> bool) (l : list Z) :
  (forall a b, In a l -> In b l -> leb a b = leb' a b) ->
  Js.sort_by leb l = Js.sort_by leb' l.
Proof.
  induction l as [|x l IH]; intros H; simpl; trivial.
  rewrite <- IH by (intros; apply H; now right).
  apply insert_ext. intros y Hy. apply (proj1 (sort_by_In y l)) in Hy.
  apply H; [now left | now right].
Qed.
End SortLemmas.

Lemma insert_strict (x : Z) (l : list Z) :
  StronglySorted Z.lt l -> ~ In x l -> StronglySorted Z.lt (Js.insert Z.leb x l).
Proof.
  induction 1 as [|y l Hl IH Hy]; intros Hx; simpl.
  - repeat constructor.
  - rewrite Forall_forall in Hy.
    assert (x <> y) by (intros ->; apply Hx; now left).
    destruct (Z.leb_spec x y).
    + constructor.
      * constructor; [assumption | now apply Forall_forall].
      * constructor; [lia|]. apply Forall_forall. intros z Hz.
        specialize (Hy z Hz). lia.
    + constructor; [apply IH; intros Hin; apply Hx; now right|].
      apply Forall_forall. intros z Hz. apply insert_In in Hz as [->|Hz]; auto.
Qed.

Lemma sort_numeric_strict (l : list Z) :
  NoDup l -> StronglySorted Z.lt (sort_numeric l).
Proof.
  induction 1 as [|x l Hx _ IH]; simpl; [constructor|].
  apply insert_strict; trivial. unfold sort_numeric in *. now rewrite sort_by_In.
Qed.

Lemma filter_strict (p : Z -> bool) (l : list Z) :
  StronglySorted Z.lt l -> StronglySorted Z.lt (filter p l).
Proof.
  induction 1 as [|y l Hl IH Hy]; simpl; [constructor|].
  destruct (p y); trivial. constructor; trivial.
  rewrite Forall_forall in *. intros z Hz. apply filter_In in Hz. now apply Hy.
Qed.

(** A strictly increasing list is determined by its elements. *)
Lemma strict_sorted_unique (l1 l2 : list Z) :
  StronglySorted Z.lt l1 -> StronglySorted Z.lt l2 ->
  (forall x, In x l1 <-> In x l2) -> l1 = l2.
Proof.
  intros H1. revert l2. induction H1 as [|a l1 Hl1 IH Ha]; intros l2 H2 Heq.
  - destruct l2 as [|b l2]; trivial. destruct (proj2 (Heq b)). now left.
  - destruct H2 as [|b l2 Hl2 Hb].
    + destruct (proj1 (Heq a)). now left.
    + rewrite Forall_forall in Ha, Hb.
      assert (Hab : a = b).
      { destruct (proj1 (Heq a) (or_introl eq_refl)) as [E|Hin]; [congruence|].
        destruct (proj2 (Heq b) (or_introl eq_refl)) as [E|Hin']; [congruence|].
        specialize (Ha _ Hin'). specialize (Hb _ Hin). lia. }
      subst b. f_equal. apply IH; trivial. intros x. split; intros Hx.
      * destruct (proj1 (Heq x) (or_intror Hx)) as [E|Hin]; trivial.
        specialize (Ha _ Hx). lia.
      * destruct (proj2 (Heq x) (or_intror Hx)) as [E|Hin]; trivial.
        specialize (Hb _ Hx). lia.
Qed.

Lemma faces_In (x : Z) : In x faces <-> in_range x.
Proof. unfold faces, in_range. simpl. lia. Qed.

(** The distinct faces of a roll, in ascending order. *)
Lemma sort_numeric_faces (s : list Z) :
  NoDup s -> Forall in_range s ->
  sort_numeric s = filter (Js.set_has s) faces.
Proof.
  intros Hnd Hr. apply strict_sorted_unique.
  - now apply sort_numeric_strict.
  - apply filter_strict. unfold faces. repeat constructor.
  - intros x. unfold sort_numeric. rewrite sort_by_In, filter_In, set_has_In, faces_In.
    rewrite Forall_forall in Hr. split; [auto | tauto].
Qed.

(** On faces the comparison of the default sort is the numeric one. *)
Lemma default_leb_faces (a b : Z) :
  in_range a -> in_range b -> Js.default_leb a b = (a <=? b).
Proof.
  unfold in_range. intros Ha Hb.
  assert (Ca : a = 1 \/ a = 2 \/ a = 3 \/ a = 4 \/ a = 5 \/ a = 6) by lia.
  assert (Cb : b = 1 \/ b = 2 \/ b = 3 \/ b = 4 \/ b = 5 \/ b = 6) by lia.
  destruct Ca as [->|[->|[->|[->|[->| ->]]]]];
    destruct Cb as [->|[->|[->|[->|[->| ->]]]]]; reflexivity.
Qed.

Lemma array_sort_numeric (l : list Z) :
  Forall in_range l -> Js.array_sort l = sort_numeric l.
Proof.
  intros H. rewrite Forall_forall in H. apply sort_by_ext.
  intros a b Ha Hb. apply default_leb_faces; auto.
Qed.

Lemma set_has_ext (s s' : list Z) (x : Z) :
  (forall y, In y s <-> In y s') -> Js.set_has s x = Js.set_has s' x.
Proof.
  intros H. destruct (Js.set_has s' x) eqn:E.
  - apply set_has_In, H, set_has_In, E.
  - apply set_has_false. rewrite H. now apply set_has_false.
Qed.

Lemma new_Set_range (dice : list Z) :
  Forall in_range dice -> Forall in_range (Js.new_Set dice).
Proof.
  rewrite !Forall_forall. intros H x Hx. now apply H, new_Set_In.
Qed.

(** What the scan of [SmallStraight] sees: the faces on the dice, ascending. *)
Lemma smallStraight_sorted (dice : list Z) :
  Forall in_range dice ->
  Js.array_sort (Js.array_from (Js.new_Set dice)) = filter (Js.set_has dice) faces.
Proof.
  intros H. unfold Js.array_from.
  rewrite array_sort_numeric by now apply new_Set_range.
  rewrite sort_numeric_faces by (auto using new_Set_NoDup, new_Set_range).
  apply filter_ext. intros x. apply set_has_ext. intros y. apply new_Set_In.
Qed.

(** ** [SmallStraight] *)

Lemma scan_faces (p : Z -> bool) :
  (scan (filter p faces) >=? 4) = four_in_a_row p.
Proof. by_faces p. Qed.

(** On the faces the loop ends with the length of the longest run, or with
    0 when no two faces present are consecutive. *)
Lemma scan_longest_run (p : Z -> bool) :
  scan (filter p faces) =
  if (longest_run (filter p faces) <? 2)%nat then 0
  else Z.of_nat (longest_run (filter p faces)).
Proof. by_faces p. Qed.

Lemma longest_run_faces (p : Z -> bool) :
  (4 <=? longest_run (filter p faces))%nat = four_in_a_row p.
Proof. by_faces p. Qed.

Lemma four_in_a_row_iff (dice : list Z) :
  Forall in_range dice ->
  four_in_a_row (Js.set_has dice) = true <->
  exists a, In a dice /\ In (a + 1) dice /\ In (a + 2) dice /\ In (a + 3) dice.
Proof.
  intros Hr. rewrite Forall_forall in Hr. unfold four_in_a_row, in_range in *.
  rewrite !orb_true_iff, !andb_true_iff, !set_has_In. split.
  - intros [[H|H]|H]; [exists 1 | exists 2 | exists 3]; simpl; tauto.
  - intros (a & H0 & H1 & H2 & H3).
    pose proof (Hr _ H0). pose proof (Hr _ H3).
    assert (Ha : a = 1 \/ a = 2 \/ a = 3) by lia.
    destruct Ha as [->|[->| ->]]; simpl in *; tauto.
Qed.

Lemma smallStraight_any_score (score : Z) (dice : list Z) :
  Forall in_range dice ->
  evalRoll (SmallStraight score) dice =
  if four_in_a_row (Js.set_has dice) then Some score else Some 0.
Proof.
  intros H. simpl evalRoll. now rewrite smallStraight_sorted, scan_faces.
Qed.

Lemma smallStraight_eval (dice : list Z) :
  Forall in_range dice ->
  evalRoll smallStraight dice =
  if four_in_a_row (Js.set_has dice) then Some 30 else Some 0.
Proof. apply smallStraight_any_score. Qed.

Lemma sorted_distinct_faces (dice : list Z) :
  Forall in_range dice ->
  sort_numeric (nodup Z.eq_dec dice) = filter (Js.set_has dice) faces.
Proof.
  intros H. rewrite sort_numeric_faces.
  - apply filter_ext. intros x. apply set_has_ext. intros y. apply nodup_In.
  - apply NoDup_nodup.
  - rewrite Forall_forall in *. intros x Hx. now apply H, (nodup_In Z.eq_dec).
Qed.

Lemma longest_run_four (dice : list Z) :
  Forall in_range dice ->
  (4 <= longest_run (sort_numeric (nodup Z.eq_dec dice)))%nat <->
  four_in_a_row (Js.set_has dice) = true.
Proof.
  intros H. rewrite sorted_distinct_faces, <- longest_run_faces by assumption.
  symmetry. apply Nat.leb_le.
Qed.

(** C2: on a valid roll [smallStraight] returns 30 exactly when the longest
    run of consecutive integers among the sorted distinct values has length
    at least 4 -- that is when four consecutive faces are on the dice -- and
    0 otherwise; the score depends on which values are present only, so a
    duplicate neither extends nor breaks a run. *)
Theorem smallStraight_score :
  (forall dice, valid_roll dice ->
     (evalRoll smallStraight dice = Some 30 <->
      (4 <= longest_run (sort_numeric (nodup Z.eq_dec dice)))%nat) /\
     (~ (4 <= longest_run (sort_numeric (nodup Z.eq_dec dice)))%nat ->
      evalRoll smallStraight dice = Some 0) /\
     ((4 <= longest_run (sort_numeric (nodup Z.eq_dec dice)))%nat <->
      exists a, In a dice /\ In (a + 1) dice /\ In (a + 2) dice /\ In (a + 3) dice)) /\
  (forall dice dice', valid_roll dice -> valid_roll dice' ->
     (forall x, In x dice <-> In x dice') ->
     evalRoll smallStraight dice = evalRoll smallStraight dice') /\
  evalRoll smallStraight [1; 2; 3; 4; 6] = Some 30 /\
  evalRoll smallStraight [1; 2; 3; 5; 6] = Some 0 /\
  evalRoll smallStraight [1; 2; 3; 4; 4] = Some 30 /\
  evalRoll smallStraight [1; 1; 2; 3; 5] = Some 0.
Proof.
  split; [|split; [|repeat split]].
  - intros dice [_ Hr].
    rewrite (smallStraight_eval dice Hr), (longest_run_four dice Hr).
    split; [|split].
    + destruct (four_in_a_row (Js.set_has dice)); split; congruence.
    + destruct (four_in_a_row (Js.set_has dice)); congruence.
    + now apply four_in_a_row_iff.
  - intros dice dice' [_ Hr] [_ Hr'] Heq.
    rewrite !smallStraight_eval by assumption.
    unfold four_in_a_row. now rewrite !(set_has_ext dice dice') by assumption.
Qed.

Lemma smallStraight_score_witness :
  valid_roll [3; 6; 5; 3; 4] /\
  (4 <= longest_run (sort_numeric (nodup Z.eq_dec [3; 6; 5; 3; 4]%Z)))%nat /\
  evalRoll smallStraight [3; 6; 5; 3; 4] = Some 30.
Proof.
  assert (Hv : valid_roll [3; 6; 5; 3; 4])
    by (split; [reflexivity | repeat constructor; lia]).
  assert (Hrun : (4 <= longest_run (sort_numeric (nodup Z.eq_dec [3; 6; 5; 3; 4]%Z)))%nat)
    by (vm_compute; repeat constructor).
  split; [exact Hv | split; [exact Hrun|]].
  exact (proj2 (proj1 (proj1 smallStraight_score [3; 6; 5; 3; 4] Hv)) Hrun).
Defined.

(** C10: the array that [SmallStraight] scans is sorted by the default
    comparison, which orders the string forms of the numbers.  On the faces
    1..6 this is the numeric order, so the sorted array, and with it the
    result of the scan, is the one numeric sorting gives. *)
Theorem default_sort_refines_numeric :
  (forall a b, in_range a -> in_range b -> Js.default_leb a b = (a <=? b)) /\
  (forall dice, Forall in_range dice ->
     Js.array_sort (Js.array_from (Js.new_Set dice)) =
     sort_numeric (Js.array_from (Js.new_Set dice)) /\
     scan (Js.array_sort (Js.array_from (Js.new_Set dice))) =
     scan (sort_numeric (Js.array_from (Js.new_Set dice)))).
Proof.
  split; [exact default_leb_faces|].
  intros dice H. unfold Js.array_from.
  rewrite (array_sort_numeric _ (new_Set_range dice H)). split; reflexivity.
Qed.

Lemma default_sort_refines_numeric_witness :
  Forall in_range [4; 2; 6; 2; 5] /\
  Js.array_sort (Js.array_from (Js.new_Set [4; 2; 6; 2; 5])) = [2; 4; 5; 6].
Proof.
  assert (Hr : Forall in_range [4; 2; 6; 2; 5])
    by (repeat constructor; unfold in_range; lia).
  split; [exact Hr|].
  exact (proj1 (proj2 default_sort_refines_numeric [4; 2; 6; 2; 5] Hr)).
Defined.

(** Off the faces the two orders part: 10 sorts before 9 as a string. *)
Example default_sort_beyond_faces :
  Js.array_sort [7; 8; 9; 10] = [10; 7; 8; 9] /\
  sort_numeric [7; 8; 9; 10] = [7; 8; 9; 10] /\
  scan (Js.array_sort [7; 8; 9; 10]) = 3 /\ scan (sort_numeric [7; 8; 9; 10]) = 4.
Proof. repeat split. Qed.

(** ** Order of the dice *)

Lemma existsb_Permutation (f : Z -> bool) (l l' : list Z) :
  Permutation l l' -> existsb f l = existsb f l'.
Proof.
  induction 1 as [|x l l' _ IH|x y l|l l' l'' _ IH1 _ IH2]; simpl.
  - reflexivity.
  - now rewrite IH.
  - destruct (f x), (f y); reflexivity.
  - congruence.
Qed.

Lemma sum_Permutation (dice dice' : list Z) :
  Permutation dice dice' -> sum dice = sum dice'.
Proof.
  intros P. destruct dice as [|d rest].
  - now rewrite (Permutation_nil P).
  - destruct dice' as [|d' rest'].
    + apply Permutation_sym, Permutation_nil in P. discriminate.
    + rewrite !sum_cons. f_equal. now apply total_Permutation.
Qed.

Lemma bool_iff (b b' : bool) (P : Prop) :
  (b = true <-> P) -> (b' = true <-> P) -> b = b'.
Proof. destruct b, b'; intuition congruence. Qed.

Lemma valid_roll_Permutation (dice dice' : list Z) :
  valid_roll dice -> Permutation dice dice' -> valid_roll dice'.
Proof.
  intros [Hlen Hr] P. split.
  - now rewrite <- (Permutation_length P).
  - now apply (Permutation_Forall P).
Qed.

(** On a valid roll no rule, whatever its parameter, sees the order of the
    dice. *)
Lemma evalRoll_Permutation (r : Rule) (dice dice' : list Z) :
  valid_roll dice -> Permutation dice dice' ->
  evalRoll r dice' = evalRoll r dice.
Proof.
  intros Hv P. pose proof (valid_roll_Permutation _ _ Hv P) as Hv'.
  destruct Hv as [Hlen Hr], Hv' as [Hlen' Hr'].
  destruct r as [val|cnt|score|score|score|score].
  - simpl. now rewrite (count_Permutation _ _ val P).
  - simpl. rewrite (existsb_Permutation _ _ _ (freq_Permutation _ _ P)).
    now rewrite (sum_Permutation _ _ P).
  - simpl.
    rewrite (bool_iff _ _ _ (fullHouse_test dice' Hlen')
               (iff_trans (fullHouse_test dice Hlen)
                  (conj (Permutation_trans (Permutation_sym (freq_Permutation _ _ P)))
                        (Permutation_trans (freq_Permutation _ _ P))))).
    reflexivity.
  - rewrite !smallStraight_any_score by assumption.
    unfold four_in_a_row.
    rewrite !(set_has_ext dice' dice); trivial;
      intros y; split; apply Permutation_in; auto using Permutation_sym.
  - simpl. unfold Js.set_size.
    rewrite (Permutation_length (new_Set_Permutation _ _ P)).
    rewrite !(set_has_ext (Js.new_Set dice') (Js.new_Set dice)); trivial;
      intros y; rewrite !new_Set_In; split; apply Permutation_in;
      auto using Permutation_sym.
  - simpl.
    assert (Hall : (exists v, Forall (eq v) dice) <-> exists v, Forall (eq v) dice').
    { split; intros [v Hall]; exists v;
        [apply (Permutation_Forall P Hall)
        | apply (Permutation_Forall (Permutation_sym P) Hall)]. }
    rewrite (bool_iff _ _ _ (yahtzee_test dice' Hlen')
               (iff_trans (yahtzee_test dice Hlen) Hall)).
    reflexivity.
Qed.

(** C7: for every exported rule the score of a valid roll is the score of
    each of its permutations: only the multiset of dice values counts. *)
Theorem evalRoll_order_independent (r : Rule) (dice dice' : list Z) :
  In r exported -> valid_roll dice -> Permutation dice dice' ->
  evalRoll r dice' = evalRoll r dice.
Proof. intros _. apply evalRoll_Permutation. Qed.

Lemma evalRoll_order_independent_witness :
  In fullHouse exported /\ valid_roll [2; 2; 5; 5; 5] /\
  Permutation [2; 2; 5; 5; 5] [5; 2; 5; 2; 5] /\
  evalRoll fullHouse [5; 2; 5; 2; 5] = evalRoll fullHouse [2; 2; 5; 5; 5].
Proof.
  assert (Hin : In fullHouse exported) by (simpl; tauto).
  assert (Hv : valid_roll [2; 2; 5; 5; 5])
    by (split; [reflexivity | repeat constructor; lia]).
  assert (P : Permutation [2; 2; 5; 5; 5] [5; 2; 5; 2; 5]).
  { apply (Permutation_cons_app [5] [5; 2; 5] 2).
    apply (Permutation_cons_app [5; 5] [5] 2). apply Permutation_refl. }
  split; [exact Hin | split; [exact Hv | split; [exact P|]]].
  exact (evalRoll_order_independent fullHouse _ _ Hin Hv P).
Defined.

(** With six dice the positional test of [Yahtzee] does see the order. *)
Example yahtzee_six_dice :
  evalRoll yahtzee [1; 1; 1; 1; 1; 2] = Some 50 /\
  evalRoll yahtzee [2; 1; 1; 1; 1; 1] = Some 0.
Proof. split; reflexivity. Qed.

(** ** Range of the scores *)

Lemma total_nonneg (dice : list Z) : Forall in_range dice -> 0 <= total dice.
Proof.
  intros H. assert (H1 : Forall (fun c => 1 <= c) dice).
  { apply (Forall_impl _ (P := in_range)); [unfold in_range; intros; lia | assumption]. }
  apply total_lower in H1. lia.
Qed.

Lemma flat_score (b : bool) (score : Z) :
  (if b then Some score else Some 0) = Some 0 \/
  (if b then Some score else Some 0) = Some score.
Proof. destruct b; auto. Qed.

(** C8: on a valid roll every exported rule returns a number that is not
    negative, and each flat-score rule returns 0 or its flat score: 25 for
    [fullHouse], 30 for [smallStraight], 40 for [largeStraight], 50 for
    [yahtzee]. *)
Theorem scores_range (dice : list Z) :
  valid_roll dice ->
  (forall r, In r exported -> exists s, evalRoll r dice = Some s /\ 0 <= s) /\
  (evalRoll fullHouse dice = Some 0 \/ evalRoll fullHouse dice = Some 25) /\
  (evalRoll smallStraight dice = Some 0 \/ evalRoll smallStraight dice = Some 30) /\
  (evalRoll largeStraight dice = Some 0 \/ evalRoll largeStraight dice = Some 40) /\
  (evalRoll yahtzee dice = Some 0 \/ evalRoll yahtzee dice = Some 50).
Proof.
  intros Hv. pose proof (valid_roll_nonempty dice Hv) as Hne.
  destruct Hv as [Hlen Hr].
  assert (Hflat : (evalRoll fullHouse dice = Some 0 \/ evalRoll fullHouse dice = Some 25) /\
    (evalRoll smallStraight dice = Some 0 \/ evalRoll smallStraight dice = Some 30) /\
    (evalRoll largeStraight dice = Some 0 \/ evalRoll largeStraight dice = Some 40) /\
    (evalRoll yahtzee dice = Some 0 \/ evalRoll yahtzee dice = Some 50))
    by (repeat split; apply flat_score).
  split; [|exact Hflat].
  assert (Hone : forall V, 0 <= V ->
            exists s, evalRoll (TotalOneNumber V) dice = Some s /\ 0 <= s).
  { intros V HV. eexists. split; [reflexivity|].
    pose proof (count_nonneg dice V). nia. }
  assert (Hsum : forall M,
            exists s, evalRoll (SumDistro M) dice = Some s /\ 0 <= s).
  { intros M. simpl. destruct (existsb _ _).
    - exists (total dice). split; [now apply sum_nonempty | now apply total_nonneg].
    - exists 0. split; [reflexivity | lia]. }
  assert (Hor : forall r score, 0 <= score ->
            evalRoll r dice = Some 0 \/ evalRoll r dice = Some score ->
            exists s, evalRoll r dice = Some s /\ 0 <= s).
  { intros r score Hs [E|E]; rewrite E; eexists; split; try reflexivity; lia. }
  destruct Hflat as (Hf & Hs & Hl & Hy).
  intros r Hin. simpl in Hin.
  repeat (destruct Hin as [<-|Hin]; [first
    [ apply Hone; lia | apply Hsum
    | apply (Hor _ 25 ltac:(lia) Hf) | apply (Hor _ 30 ltac:(lia) Hs)
    | apply (Hor _ 40 ltac:(lia) Hl) | apply (Hor _ 50 ltac:(lia) Hy) ] |]).
  contradiction.
Qed.

Lemma scores_range_witness :
  valid_roll [2; 3; 4; 5; 6] /\
  (evalRoll largeStraight [2; 3; 4; 5; 6] = Some 0 \/
   evalRoll largeStraight [2; 3; 4; 5; 6] = Some 40).
Proof.
  assert (Hv : valid_roll [2; 3; 4; 5; 6])
    by (split; [reflexivity | repeat constructor; lia]).
  split; [exact Hv|].
  exact (proj1 (proj2 (proj2 (proj2 (scores_range [2; 3; 4; 5; 6] Hv))))).
Defined.

(** * Further properties of the helpers and the rules *)

(** ** The frequency profile on any array *)

Lemma set_add_cons (d x : Z) (s : Js.Set_) :
  Js.set_add (d :: s) x = if x =? d then d :: s else d :: Js.set_add s x.
Proof.
  unfold Js.set_add, Js.set_has. simpl existsb.
  destruct (x =? d); simpl; trivial.
  destruct (existsb (Z.eqb x) s); reflexivity.
Qed.

Lemma fold_set_add_cons (d : Z) (l : list Z) (s : Js.Set_) :
  fold_left Js.set_add l (d :: s) =
  d :: fold_left Js.set_add (filter (fun v => negb (v =? d)) l) s.
Proof.
  revert s. induction l as [|x l IH]; intros s; simpl; trivial.
  rewrite set_add_cons. destruct (x =? d); simpl; apply IH.
Qed.

(** [new Set] keeps each value where it is first seen. *)
Lemma new_Set_cons (d : Z) (rest : list Z) :
  Js.new_Set (d :: rest) = d :: Js.new_Set (filter (fun v => negb (v =? d)) rest).
Proof.
  unfold Js.new_Set. simpl. apply (fold_set_add_cons d rest []).
Qed.

Lemma count_filter_other (d v : Z) (rest : list Z) :
  v <> d -> count (d :: rest) v = count (filter (fun x => negb (x =? d)) rest) v.
Proof.
  intros Hne. rewrite count_cons.
  destruct (Z.eqb_spec d v); [congruence|].
  induction rest as [|x rest IH]; simpl; trivial.
  destruct (Z.eqb_spec x d) as [->|Hx]; simpl; rewrite !count_cons; rewrite <- IH.
  - destruct (Z.eqb_spec d v); [congruence | reflexivity].
  - reflexivity.
Qed.

(** X1: the profile of the empty array is empty; otherwise its first entry
    counts the first element, one more than its occurrences in the rest,
    and the other entries are the profile of the rest without that value. *)
Theorem freq_first_seen :
  freq [] = [] /\
  forall d rest,
    freq (d :: rest) =
    (1 + Z.of_nat (count_occ Z.eq_dec rest d))
      :: freq (filter (fun v => negb (v =? d)) rest).
Proof.
  split; [reflexivity|]. intros d rest.
  rewrite (freq_counts (d :: rest)), new_Set_cons. simpl map. f_equal.
  - rewrite count_cons, Z.eqb_refl, count_count_occ. reflexivity.
  - rewrite freq_counts. apply map_ext_in. intros v Hv.
    apply count_filter_other. intros ->.
    apply (proj1 (new_Set_In _ _)), filter_In in Hv.
    rewrite Z.eqb_refl in Hv. destruct Hv. discriminate.
Qed.

(** X2: on any array the entries of the profile are at least 1, they add up
    to the number of elements, and there is one entry for each distinct
    value. *)
Theorem freq_totals (dice : list Z) :
  Forall (fun c => 1 <= c <= Z.of_nat (length dice)) (freq dice) /\
  total (freq dice) = Z.of_nat (length dice) /\
  length (freq dice) = length (nodup Z.eq_dec dice).
Proof.
  split; [|split].
  - pose proof (freq_pos dice) as Hp. rewrite freq_counts in *.
    rewrite Forall_forall in *. intros c Hc. split; [now apply Hp|].
    apply in_map_iff in Hc as (v & <- & _). apply count_le_length.
  - apply freq_total.
  - rewrite freq_counts, length_map. apply Nat2Z.inj.
    apply (set_size_distinct dice).
Qed.

(** X3: reordering the dice reorders the profile: its entries, as a
    multiset, depend on the multiset of dice only. *)
Theorem freq_multiset (dice dice' : list Z) :
  Permutation dice dice' -> Permutation (freq dice) (freq dice').
Proof. apply freq_Permutation. Qed.

Lemma freq_multiset_witness :
  Permutation [1; 2; 2] [2; 2; 1] /\ Permutation (freq [1; 2; 2]) (freq [2; 2; 1]).
Proof.
  assert (P : Permutation [1; 2; 2] [2; 2; 1])
    by apply (Permutation_cons_app [2; 2] [] 1), Permutation_refl.
  split; [exact P | exact (freq_multiset _ _ P)].
Defined.

(** ** The rules on any array *)

Lemma sumDistro_cases (M : Z) (dice : list Z) :
  (existsb (fun c => c >=? M) (freq dice) = true /\ dice <> [] /\
   evalRoll (SumDistro M) dice = Some (total dice)) \/
  (existsb (fun c => c >=? M) (freq dice) = false /\
   evalRoll (SumDistro M) dice = Some 0).
Proof.
  simpl evalRoll. destruct (existsb _ (freq dice)) eqn:E; [left | right; auto].
  assert (Hne : dice <> []) by (intros ->; discriminate).
  repeat split; trivial. now apply sum_nonempty.
Qed.

(** X4: [sum] throws on the empty array, but no rule does: [SumDistro]
    calls [sum] only when the profile has an entry, that is when there is a
    die.  On the empty array every rule returns 0. *)
Theorem evalRoll_never_throws (r : Rule) (dice : list Z) :
  (exists s, evalRoll r dice = Some s) /\ evalRoll r [] = Some 0.
Proof.
  split.
  - destruct r as [val|cnt|score|score|score|score];
      try (simpl; match goal with |- context [if ?b then _ else _] =>
                    destruct b end; eexists; reflexivity).
    + eexists. reflexivity.
    + destruct (sumDistro_cases cnt dice) as [(_ & _ & E)|(_ & E)];
        rewrite E; eexists; reflexivity.
  - destruct r; try reflexivity.
    cbn [evalRoll]. now rewrite count_nil, Z.mul_0_r.
Qed.



(** X6: lowering the minimum multiplicity keeps a score: a roll that scores
    [s], not 0, with minimum [M'] scores [s] with every minimum [M <= M'];
    so a four of a kind is a three of a kind with the same score. *)
Theorem sumDistro_monotone (M M' s : Z) (dice : list Z) :
  M <= M' -> evalRoll (SumDistro M') dice = Some s -> s <> 0 ->
  evalRoll (SumDistro M) dice = Some s.
Proof.
  intros HM Hs Hnz.
  destruct (sumDistro_cases M' dice) as [(E' & _ & R')|(_ & R')];
    [|rewrite R' in Hs; congruence].
  destruct (sumDistro_cases M dice) as [(_ & _ & R)|(E & _)]; [congruence|].
  exfalso. apply sumDistro_test in E' as (v & Hv & Hge).
  assert (H : existsb (fun c => c >=? M) (freq dice) = true)
    by (apply sumDistro_test; exists v; split; [assumption | lia]).
  congruence.
Qed.

Lemma sumDistro_monotone_witness :
  3 <= 4 /\ evalRoll fourOfKind [2; 2; 5; 2; 2] = Some 13 /\ 13 <> 0 /\
  evalRoll threeOfKind [2; 2; 5; 2; 2] = Some 13.
Proof.
  assert (H34 : 3 <= 4) by lia.
  assert (H4 : evalRoll fourOfKind [2; 2; 5; 2; 2] = Some 13) by reflexivity.
  assert (Hnz : 13 <> 0) by discriminate.
  split; [exact H34 | split; [exact H4 | split; [exact Hnz|]]].
  exact (sumDistro_monotone 3 4 13 [2; 2; 5; 2; 2] H34 H4 Hnz).
Defined.

Lemma face_counts_total (dice : list Z) :
  Forall in_range dice ->
  total (map (fun V => V * count dice V) faces) = total dice.
Proof.
  induction 1 as [|d dice Hd _ IH]; [reflexivity|].
  unfold faces in *. cbn [map total fold_right] in *. rewrite !count_cons.
  unfold in_range in Hd.
  assert (Cd : d = 1 \/ d = 2 \/ d = 3 \/ d = 4 \/ d = 5 \/ d = 6) by lia.
  destruct Cd as [->|[->|[->|[->|[->| ->]]]]];
    repeat match goal with
           | |- context [?a =? ?b] =>
               let v := eval compute in (a =? b) in change (a =? b) with v
           end; cbv iota; change (fold_right Z.add 0 dice) with (total dice); lia.
Qed.

(** X7: when every die shows a face from 1 to 6 (any number of dice), the
    scores of [ones] to [sixes] add up to the arithmetic sum of the dice,
    which is the score of [chance]. *)
Theorem face_rules_add_up (dice : list Z) :
  Forall in_range dice ->
  exists s1 s2 s3 s4 s5 s6,
    evalRoll ones dice = Some s1 /\ evalRoll twos dice = Some s2 /\
    evalRoll threes dice = Some s3 /\ evalRoll fours dice = Some s4 /\
    evalRoll fives dice = Some s5 /\ evalRoll sixes dice = Some s6 /\
    s1 + s2 + s3 + s4 + s5 + s6 = total dice /\
    evalRoll chance dice = Some (s1 + s2 + s3 + s4 + s5 + s6).
Proof.
  intros H. pose proof (face_counts_total dice H) as Ht.
  unfold faces in Ht. cbn [map total fold_right] in Ht.
  do 6 eexists. repeat (split; [reflexivity|]).
  assert (Hc : evalRoll chance dice = Some (total dice)).
  { destruct dice as [|d rest]; [reflexivity|].
    destruct (sumDistro_cases 0 (d :: rest)) as [(_ & _ & E)|(E & _)]; trivial.
    exfalso.
    assert (Hq : existsb (fun c => c >=? 0) (freq (d :: rest)) = true).
    { apply sumDistro_test. exists d. split; [now left | apply count_nonneg]. }
    congruence. }
  rewrite Hc. split; [|f_equal]; lia.
Qed.

Lemma face_rules_add_up_witness :
  Forall in_range [2; 3; 3; 4; 6; 1] /\
  exists s1 s2 s3 s4 s5 s6,
    evalRoll ones [2; 3; 3; 4; 6; 1] = Some s1 /\
    evalRoll twos [2; 3; 3; 4; 6; 1] = Some s2 /\
    evalRoll threes [2; 3; 3; 4; 6; 1] = Some s3 /\
    evalRoll fours [2; 3; 3; 4; 6; 1] = Some s4 /\
    evalRoll fives [2; 3; 3; 4; 6; 1] = Some s5 /\
    evalRoll sixes [2; 3; 3; 4; 6; 1] = Some s6 /\
    s1 + s2 + s3 + s4 + s5 + s6 = total [2; 3; 3; 4; 6; 1] /\
    evalRoll chance [2; 3; 3; 4; 6; 1] = Some (s1 + s2 + s3 + s4 + s5 + s6).
Proof.
  assert (Hr : Forall in_range [2; 3; 3; 4; 6; 1])
    by (repeat constructor; unfold in_range; lia).
  split; [exact Hr | exact (face_rules_add_up _ Hr)].
Defined.

(** X8: whatever the number of dice, [Yahtzee] looks at the value of the
    first die only: it scores exactly when that value shows on five dice;
    on the empty array it returns 0. *)
Theorem yahtzee_first_value (score d : Z) (rest : list Z) :
  evalRoll (Yahtzee score) (d :: rest) =
  (if (count_occ Z.eq_dec (d :: rest) d =? 5)%nat then Some score else Some 0) /\
  evalRoll (Yahtzee score) [] = Some 0.
Proof.
  split; [|reflexivity].
  cbn [evalRoll]. destruct (freq_head d rest) as [t ->].
  unfold index_is. cbn [nth_error]. rewrite count_count_occ.
  destruct (Nat.eqb_spec (count_occ Z.eq_dec (d :: rest) d) 5) as [->|Hne].
  - reflexivity.
  - destruct (Z.eqb_spec (Z.of_nat (count_occ Z.eq_dec (d :: rest) d)) 5);
      [lia | reflexivity].
Qed.



(** ** How the rules relate on a valid roll *)

Lemma rolls_of_complete (dice : list Z) :
  Forall in_range dice -> In dice (rolls_of (length dice)).
Proof.
  induction 1 as [|d rest Hd _ IH]; cbn [length rolls_of]; [now left|].
  apply (proj2 (in_flat_map _ _ _)). exists rest. split; trivial.
  apply (proj2 (in_map_iff _ _ _)). exists d. split; trivial. now apply faces_In.
Qed.

(** A test that passes on each of the 7776 rolls holds of every valid roll. *)
Lemma by_enumeration (P : list Z -> bool) :
  forallb P (rolls_of 5) = true -> forall dice, valid_roll dice -> P dice = true.
Proof.
  intros H dice [Hlen Hr]. rewrite forallb_forall in H. apply H.
  rewrite <- Hlen. now apply rolls_of_complete.
Qed.

Lemma scores_eq (result : option Z) (s : Z) :
  scores result s = true <-> result = Some s.
Proof.
  destruct result as [s'|]; simpl.
  - rewrite Z.eqb_eq. split; congruence.
  - split; discriminate.
Qed.

Ltac split_scores H :=
  repeat match type of H with
         | (_ && _) = true => let H' := fresh in
                              apply andb_true_iff in H as [H H'];
                              apply scores_eq in H'
         end;
  apply scores_eq in H.

(** X10: a roll that scores as a large straight scores as a small straight
    too. *)
Theorem largeStraight_is_smallStraight (dice : list Z) :
  valid_roll dice -> evalRoll largeStraight dice = Some 40 ->
  evalRoll smallStraight dice = Some 30.
Proof.
  intros Hv H. pose proof (largeStraight_test dice Hv) as Ht.
  destruct Hv as [_ Hr]. rewrite (smallStraight_eval dice Hr).
  simpl evalRoll in H.
  destruct ((Js.set_size (Js.new_Set dice) =? 5) && _); [|discriminate].
  assert (Hrun : four_in_a_row (Js.set_has dice) = true).
  { apply (four_in_a_row_iff dice Hr).
    destruct (proj1 Ht eq_refl) as [P|P]; [exists 1 | exists 2];
      repeat split; apply (Permutation_in _ (Permutation_sym P)); simpl; tauto. }
  now rewrite Hrun.
Qed.

Lemma largeStraight_is_smallStraight_witness :
  valid_roll [5; 3; 1; 2; 4] /\ evalRoll largeStraight [5; 3; 1; 2; 4] = Some 40 /\
  evalRoll smallStraight [5; 3; 1; 2; 4] = Some 30.
Proof.
  assert (Hv : valid_roll [5; 3; 1; 2; 4])
    by (split; [reflexivity | repeat constructor; unfold in_range; lia]).
  assert (Hl : evalRoll largeStraight [5; 3; 1; 2; 4] = Some 40) by reflexivity.
  split; [exact Hv | split; [exact Hl|]].
  exact (largeStraight_is_smallStraight _ Hv Hl).
Defined.

(** X11: five of a kind scores the sum of the dice as four and as three of a
    kind, and scores nothing as full house or as a straight. *)
Theorem yahtzee_other_rules (dice : list Z) :
  valid_roll dice -> evalRoll yahtzee dice = Some 50 ->
  evalRoll fourOfKind dice = Some (total dice) /\
  evalRoll threeOfKind dice = Some (total dice) /\
  evalRoll fullHouse dice = Some 0 /\
  evalRoll smallStraight dice = Some 0 /\
  evalRoll largeStraight dice = Some 0.
Proof.
  intros Hv Hy.
  pose proof (by_enumeration
    (fun d => implb (scores (evalRoll yahtzee d) 50)
                (scores (evalRoll fourOfKind d) (total d)
                 && scores (evalRoll threeOfKind d) (total d)
                 && scores (evalRoll fullHouse d) 0
                 && scores (evalRoll smallStraight d) 0
                 && scores (evalRoll largeStraight d) 0))
    ltac:(vm_compute; reflexivity) dice Hv) as H.
  cbv beta in H. rewrite (proj2 (scores_eq _ _) Hy) in H. cbn [implb] in H.
  split_scores H. auto.
Qed.

Lemma yahtzee_other_rules_witness :
  valid_roll [3; 3; 3; 3; 3] /\ evalRoll yahtzee [3; 3; 3; 3; 3] = Some 50 /\
  evalRoll fullHouse [3; 3; 3; 3; 3] = Some 0.
Proof.
  assert (Hv : valid_roll [3; 3; 3; 3; 3])
    by (split; [reflexivity | repeat constructor; unfold in_range; lia]).
  assert (Hy : evalRoll yahtzee [3; 3; 3; 3; 3] = Some 50) by reflexivity.
  split; [exact Hv | split; [exact Hy|]].
  exact (proj1 (proj2 (proj2 (yahtzee_other_rules _ Hv Hy)))).
Defined.

(** X12: a full house scores the sum of the dice as three of a kind, and
    nothing as four of a kind, as yahtzee or as a straight. *)
Theorem fullHouse_other_rules (dice : list Z) :
  valid_roll dice -> evalRoll fullHouse dice = Some 25 ->
  evalRoll threeOfKind dice = Some (total dice) /\
  evalRoll fourOfKind dice = Some 0 /\
  evalRoll yahtzee dice = Some 0 /\
  evalRoll smallStraight dice = Some 0 /\
  evalRoll largeStraight dice = Some 0.
Proof.
  intros Hv Hf.
  pose proof (by_enumeration
    (fun d => implb (scores (evalRoll fullHouse d) 25)
                (scores (evalRoll threeOfKind d) (total d)
                 && scores (evalRoll fourOfKind d) 0
                 && scores (evalRoll yahtzee d) 0
                 && scores (evalRoll smallStraight d) 0
                 && scores (evalRoll largeStraight d) 0))
    ltac:(vm_compute; reflexivity) dice Hv) as H.
  cbv beta in H. rewrite (proj2 (scores_eq _ _) Hf) in H. cbn [implb] in H.
  split_scores H. auto.
Qed.

Lemma fullHouse_other_rules_witness :
  valid_roll [4; 6; 4; 6; 6] /\ evalRoll fullHouse [4; 6; 4; 6; 6] = Some 25 /\
  evalRoll threeOfKind [4; 6; 4; 6; 6] = Some 26.
Proof.
  assert (Hv : valid_roll [4; 6; 4; 6; 6])
    by (split; [reflexivity | repeat constructor; unfold in_range; lia]).
  assert (Hf : evalRoll fullHouse [4; 6; 4; 6; 6] = Some 25) by reflexivity.
  split; [exact Hv | split; [exact Hf|]].
  exact (proj1 (fullHouse_other_rules _ Hv Hf)).
Defined.

(** X13: a roll with a small straight has no value on three dice: it scores
    nothing as three or four of a kind, as full house or as yahtzee. *)
Theorem smallStraight_other_rules (dice : list Z) :
  valid_roll dice -> evalRoll smallStraight dice = Some 30 ->
  evalRoll threeOfKind dice = Some 0 /\
  evalRoll fourOfKind dice = Some 0 /\
  evalRoll fullHouse dice = Some 0 /\
  evalRoll yahtzee dice = Some 0.
Proof.
  intros Hv Hs.
  pose proof (by_enumeration
    (fun d => implb (scores (evalRoll smallStraight d) 30)
                (scores (evalRoll threeOfKind d) 0
                 && scores (evalRoll fourOfKind d) 0
                 && scores (evalRoll fullHouse d) 0
                 && scores (evalRoll yahtzee d) 0))
    ltac:(vm_compute; reflexivity) dice Hv) as H.
  cbv beta in H. rewrite (proj2 (scores_eq _ _) Hs) in H. cbn [implb] in H.
  split_scores H. auto.
Qed.

Lemma smallStraight_other_rules_witness :
  valid_roll [2; 3; 4; 5; 5] /\ evalRoll smallStraight [2; 3; 4; 5; 5] = Some 30 /\
  evalRoll threeOfKind [2; 3; 4; 5; 5] = Some 0.
Proof.
  assert (Hv : valid_roll [2; 3; 4; 5; 5])
    by (split; [reflexivity | repeat constructor; unfold in_range; lia]).
  assert (Hs : evalRoll smallStraight [2; 3; 4; 5; 5] = Some 30) by reflexivity.
  split; [exact Hv | split; [exact Hs|]].
  exact (proj1 (smallStraight_other_rules _ Hv Hs)).
Defined.

(** X14: on a valid roll no exported rule scores more than 50, and [chance]
    scores between 5 and 30. *)
Theorem scores_upper_bound (dice : list Z) :
  valid_roll dice ->
  (forall r s, In r exported -> evalRoll r dice = Some s -> s <= 50) /\
  (exists s, evalRoll chance dice = Some s /\ 5 <= s <= 30).
Proof.
  intros Hv.
  pose proof (by_enumeration
    (fun d => forallb (fun r => match evalRoll r d with
                                | Some s => s <=? 50
                                | None => false
                                end) exported
              && match evalRoll chance d with
                 | Some s => (5 <=? s) && (s <=? 30)
                 | None => false
                 end)
    ltac:(vm_compute; reflexivity) dice Hv) as H.
  cbv beta in H. apply andb_true_iff in H as [Hall Hch]. split.
  - intros r s Hin Hs. rewrite forallb_forall in Hall.
    specialize (Hall r Hin). rewrite Hs in Hall. lia.
  - destruct (evalRoll chance dice) as [s|]; [|discriminate].
    exists s. split; trivial. lia.
Qed.

Lemma scores_upper_bound_witness :
  valid_roll [6; 6; 6; 6; 6] /\
  exists s, evalRoll chance [6; 6; 6; 6; 6] = Some s /\ 5 <= s <= 30.
Proof.
  assert (Hv : valid_roll [6; 6; 6; 6; 6])
    by (split; [reflexivity | repeat constructor; unfold in_range; lia]).
  split; [exact Hv | exact (proj2 (scores_upper_bound _ Hv))].
Defined.

(** ** The run scan on any array *)









(** X16: the array [SmallStraight] scans has no repeated element and, up to
    order, the elements of the set of the dice; when every die shows a face
    from 1 to 6 it is strictly increasing and holds exactly the faces on the
    dice. *)
Theorem smallStraight_scanned_array (dice : list Z) :
  let d := Js.array_sort (Js.array_from (Js.new_Set dice)) in
  NoDup d /\ Permutation d (Js.new_Set dice) /\
  (Forall in_range dice ->
   StronglySorted Z.lt d /\ forall x, In x d <-> In x dice).
Proof.
  cbv zeta. unfold Js.array_from, Js.array_sort.
  pose proof (sort_by_Permutation Js.default_leb (Js.new_Set dice)) as P.
  split; [|split; [exact P|]].
  - apply (Permutation_NoDup (Permutation_sym P)), new_Set_NoDup.
  - intros Hr. split.
    + change (Js.sort_by Js.default_leb (Js.new_Set dice))
        with (Js.array_sort (Js.new_Set dice)).
      rewrite (array_sort_numeric _ (new_Set_range dice Hr)).
      apply sort_numeric_strict, new_Set_NoDup.
    + intros x. now rewrite sort_by_In, new_Set_In.
Qed.

Lemma smallStraight_scanned_array_witness :
  Forall in_range [5; 2; 5; 1; 2] /\
  StronglySorted Z.lt (Js.array_sort (Js.array_from (Js.new_Set [5; 2; 5; 1; 2]))).
Proof.
  assert (Hr : Forall in_range [5; 2; 5; 1; 2])
    by (repeat constructor; unfold in_range; lia).
  split; [exact Hr|].
  exact (proj1 (proj2 (proj2 (smallStraight_scanned_array [5; 2; 5; 1; 2])) Hr)).
Defined.

(** X17: when every die shows a face from 1 to 6, the loop ends with the
    length of the longest run of consecutive faces on the dice, except that
    it ends with 0, not 1, when no two of the faces are consecutive. *)
Theorem scan_counts_longest_run (dice : list Z) :
  Forall in_range dice ->
  scan (Js.array_sort (Js.array_from (Js.new_Set dice))) =
  if (longest_run (sort_numeric (nodup Z.eq_dec dice)) <? 2)%nat then 0
  else Z.of_nat (longest_run (sort_numeric (nodup Z.eq_dec dice))).
Proof.
  intros Hr. rewrite (smallStraight_sorted dice Hr), (sorted_distinct_faces dice Hr).
  apply scan_longest_run.
Qed.

Lemma scan_counts_longest_run_witness :
  Forall in_range [1; 3; 5; 1; 3] /\
  scan (Js.array_sort (Js.array_from (Js.new_Set [1; 3; 5; 1; 3]))) = 0 /\
  longest_run (sort_numeric (nodup Z.eq_dec [1; 3; 5; 1; 3])) = 1%nat.
Proof.
  assert (Hr : Forall in_range [1; 3; 5; 1; 3])
    by (repeat constructor; unfold in_range; lia).
  split; [exact Hr | split; [|reflexivity]].
  exact (scan_counts_longest_run [1; 3; 5; 1; 3] Hr).
Defined.

(** ** [freq] and [count] together *)

(** X18: the entries of the profile are the results of [count] on the
    values of the dice: a number is an entry exactly when it is the count of
    some value that is on a die. *)
Theorem freq_entries_are_counts (dice : list Z) (c : Z) :
  In c (freq dice) <-> exists v, In v dice /\ c = count dice v.
Proof.
  rewrite freq_counts, in_map_iff. split.
  - intros (v & <- & Hv). exists v. split; [now apply new_Set_In | reflexivity].
  - intros (v & Hv & ->). exists v. split; [reflexivity | now apply new_Set_In].
Qed.
